(** * Sampling and coordinate engine: a shallow embedding

    The numerical core of the graphing engine, embedded function by
    function: the Precision Core ([PrecisionManager]), the operation
    budget ([OperationCounter], [CircuitBreaker], [DeterministicTimeout]),
    the linear [CoordinateTransformer], the [GraphViewport], the
    [AdaptiveSampler] and [marchingSquares].

    ECMAScript numbers are IEEE 754 binary64 values and are modelled by
    Rocq's primitive floats.  decimal.js values are modelled by exact
    rationals together with the two roundings the library applies
    (to [precision] significant digits, and to a number of decimal
    places). *)

From Stdlib Require Import ZArith QArith Qabs Uint63 Floats List Permutation String Bool Lia.
Import ListNotations.

Set Warnings "-inexact-float".

Local Open Scope Z_scope.

(** ** Exceptions and results *)

Inductive exn : Type :=
| DeterminismError (operation : string)
| CircuitBreakerError (breaker : string) (maxOperations actualOperations : Z)
| UserError (tag : nat).

Inductive res (A : Type) : Type :=
| Ok (a : A)
| Throw (e : exn).

Arguments Ok {A} a.
Arguments Throw {A} e.

Definition bind {A B : Type} (m : res A) (k : A -> res B) : res B :=
  match m with
  | Ok a => k a
  | Throw e => Throw e
  end.

Notation "'let*' x ':=' m 'in' k" := (bind m (fun x => k))
  (at level 10, x name, m at level 100, k at level 200).

Lemma bind_Ok_inv {A B : Type} (m : res A) (k : A -> res B) (b : B) :
  bind m k = Ok b -> exists a, m = Ok a /\ k a = Ok b.
Proof.
  destruct m as [a | e]; simpl; intros H; [eauto | discriminate].
Qed.

(** ** ECMAScript numbers *)

Module JS.

Definition number : Type := float.

(** [Number.isFinite] / the global [isFinite] on a number. *)
Definition isFinite (v : number) : bool := is_finite v.

(** ToBoolean on a number: [0], [-0] and [NaN] are falsy. *)
Definition truthy (v : number) : bool := negb (is_nan v || is_zero v).

(** [a || b] on optional numeric fields ([undefined] is falsy). *)
Definition or_default (v : option number) (d : number) : number :=
  match v with
  | Some x => if truthy x then x else d
  | None => d
  end.

(** [a || b] on optional counts: [undefined] and [0] are falsy. *)
Definition or_count (v : option N) (d : N) : N :=
  match v with
  | Some 0%N => d
  | Some x => x
  | None => d
  end.

(** [Math.min] and [Math.max] on two numbers: [NaN] if either is,
    and [-0] below [+0]. *)
Definition min (a b : number) : number :=
  if is_nan a || is_nan b then nan
  else if PrimFloat.ltb a b then a
  else if PrimFloat.ltb b a then b
  else if get_sign a then a else b.

Definition max (a b : number) : number :=
  if is_nan a || is_nan b then nan
  else if PrimFloat.ltb a b then b
  else if PrimFloat.ltb b a then a
  else if get_sign a then b else a.

(** A count or loop index used as a number (exact below 2^53). *)
Definition of_nat (n : nat) : number := PrimFloat.of_uint63 (Uint63.of_Z (Z.of_nat n)).

(** The exact rational value of a finite number (0 for the others). *)
Definition to_Q (v : number) : Q :=
  match Prim2SF v with
  | S754_finite s m e =>
      let z := if s then Z.neg m else Z.pos m in
      if 0 <=? e then inject_Z (z * 2 ^ e)
      else Qmake z (Z.to_pos (2 ^ (- e)))
  | _ => 0%Q
  end.

End JS.

(** ** decimal.js *)

Inductive RoundingMode : Type :=
| ROUND_UP | ROUND_DOWN | ROUND_HALF_UP | ROUND_HALF_EVEN | ROUND_CEIL | ROUND_FLOOR.

Module Decimal.

(** A finite Decimal is an exact rational; [None] stands for the
    non-finite Decimals ([NaN], [Infinity], [-Infinity]). *)
Definition t : Type := option Q.

(** Global settings of the library ([Decimal.set]). *)
Record settings : Type := { precision : Z; rounding : RoundingMode }.

(** [n / d] rounded to an integer, for [0 <= n] and [0 < d]; [neg] is
    the sign of the number whose magnitude is being rounded. *)
Definition round_div (rm : RoundingMode) (neg : bool) (n d : Z) : Z :=
  let q := n / d in
  let r := n mod d in
  if r =? 0 then q
  else match rm with
       | ROUND_UP => q + 1
       | ROUND_DOWN => q
       | ROUND_CEIL => if neg then q else q + 1
       | ROUND_FLOOR => if neg then q + 1 else q
       | ROUND_HALF_UP => if d <=? 2 * r then q + 1 else q
       | ROUND_HALF_EVEN =>
           match 2 * r ?= d with
           | Lt => q
           | Gt => q + 1
           | Eq => if Z.even q then q else q + 1
           end
       end.

(** [n / d] as a pair after multiplication by [b ^ (- e)]. *)
Definition scale (b : Z) (n d e : Z) : Z * Z :=
  if 0 <=? e then (n, d * b ^ e) else (n * b ^ (- e), d).

(** Whether [b ^ e <= n / d]. *)
Definition ge_pow (b n d e : Z) : bool :=
  let '(n', d') := scale b n d e in d' <=? n'.

Fixpoint adjust_down (fuel : nat) (b n d e : Z) : Z :=
  match fuel with
  | O => e
  | S fuel' => if ge_pow b n d e then e else adjust_down fuel' b n d (e - 1)
  end.

Fixpoint adjust_up (fuel : nat) (b n d e : Z) : Z :=
  match fuel with
  | O => e
  | S fuel' => if ge_pow b n d (e + 1) then adjust_up fuel' b n d (e + 1) else e
  end.

(** The integer [e] with [b ^ e <= n / d < b ^ (e + 1)], for [0 < n],
    [0 < d] and [b] either 2 or 10: a first guess from the binary
    lengths, then corrected. *)
Definition ilog (b n d : Z) : Z :=
  let l := Z.log2 n - Z.log2 d in
  let e0 := if b =? 2 then l else l * 30103 / 100000 in
  adjust_up 4 b n d (adjust_down 4 b n d e0).

Definition Qneg (q : Q) : bool := Qnum q <? 0.
Definition Qmag_num (q : Q) : Z := Z.abs (Qnum q).
Definition Qmag_den (q : Q) : Z := Z.pos (Qden q).

(** [m * b ^ e] with the sign [neg], as a reduced rational. *)
Definition of_scaled (neg : bool) (m b e : Z) : Q :=
  let z := if neg then - m else m in
  Qred (if 0 <=? e then inject_Z (z * b ^ e) else Qmake z (Z.to_pos (b ^ (- e)))).

(** Rounding to [sd] significant digits (what [plus], [minus], [times]
    and [dividedBy] apply to their exact result). *)
Definition round_sig (sd : Z) (rm : RoundingMode) (q : Q) : Q :=
  if Qnum q =? 0 then 0%Q
  else
    let n := Qmag_num q in
    let d := Qmag_den q in
    let p := ilog 10 n d - sd + 1 in
    let '(n', d') := scale 10 n d p in
    of_scaled (Qneg q) (round_div rm (Qneg q) n' d') 10 p.

(** [toDecimalPlaces(dp, rm)]. *)
Definition toDecimalPlaces (dp : Z) (rm : RoundingMode) (x : t) : t :=
  match x with
  | None => None
  | Some q =>
      let '(n', d') := scale 10 (Qmag_num q) (Qmag_den q) (- dp) in
      Some (of_scaled (Qneg q) (round_div rm (Qneg q) n' d') 10 (- dp))
  end.

(** [toNumber]: the binary64 value nearest to the Decimal, ties to
    even, overflowing to an infinity. *)
Definition Q_to_number (q : Q) : JS.number :=
  if Qnum q =? 0 then 0%float
  else
    let n := Qmag_num q in
    let d := Qmag_den q in
    let ex := Z.max (ilog 2 n d - 52) (-1074) in
    let '(n', d') := scale 2 n d ex in
    let m := round_div ROUND_HALF_EVEN false n' d' in
    match m with
    | Z.pos mp => SF2Prim (S754_finite (Qneg q) mp ex)
    | _ => SF2Prim (S754_zero (Qneg q))
    end.

Definition toNumber (x : t) : JS.number :=
  match x with
  | Some q => Q_to_number q
  | None => nan
  end.

(** Number::toString picks the fewest digits [k] for which some
    [k]-digit decimal converts back to the number, and the closest
    such decimal.  [candidate k] returns it when there is one. *)
Definition candidate (v : JS.number) (n d : Z) (e10 : Z) (k : Z) : option Q :=
  let p := e10 - k + 1 in
  let '(n', d') := scale 10 n d p in
  let lo := n' / d' in
  let r := n' mod d' in
  let qlo := of_scaled false lo 10 p in
  let qhi := of_scaled false (lo + 1) 10 p in
  let oklo := PrimFloat.eqb (Q_to_number qlo) v in
  let okhi := PrimFloat.eqb (Q_to_number qhi) v in
  match oklo, okhi with
  | true, true =>
      match 2 * r ?= d' with
      | Lt => Some qlo
      | Gt => Some qhi
      | Eq => if Z.even lo then Some qlo else Some qhi
      end
  | true, false => Some qlo
  | false, true => Some qhi
  | false, false => None
  end.

Fixpoint shortest_from (fuel : nat) (v : JS.number) (n d e10 k : Z) : Q :=
  match fuel with
  | O => Qmake n (Z.to_pos d)
  | S fuel' =>
      match candidate v n d e10 k with
      | Some q => q
      | None => shortest_from fuel' v n d e10 (k + 1)
      end
  end.

(** The decimal that [v.toString()] denotes, for a finite [v]. *)
Definition shortest (v : JS.number) : Q :=
  let q := JS.to_Q v in
  if Qnum q =? 0 then 0%Q
  else
    let n := Qmag_num q in
    let d := Qmag_den q in
    let s := shortest_from 17 (PrimFloat.abs v) n d (ilog 10 n d) 1 in
    if Qneg q then Qred (Qopp s) else s.

(** [new Decimal(v)] for a number [v]. *)
Definition of_number (v : JS.number) : t :=
  if JS.isFinite v then Some (shortest v) else None.

Definition lift2 (f : Q -> Q -> Q) (s : settings) (x y : t) : t :=
  match x, y with
  | Some a, Some b => Some (round_sig (precision s) (rounding s) (Qred (f a b)))
  | _, _ => None
  end.

Definition plus : settings -> t -> t -> t := lift2 Qplus.
Definition minus : settings -> t -> t -> t := lift2 Qminus.
Definition times : settings -> t -> t -> t := lift2 Qmult.

Definition dividedBy (s : settings) (x y : t) : t :=
  match x, y with
  | Some a, Some b =>
      if Qnum b =? 0 then None
      else Some (round_sig (precision s) (rounding s) (Qred (Qdiv a b)))
  | _, _ => None
  end.

End Decimal.

(** ** Precision Core: [PrecisionManager] *)

Inductive PrecisionMode : Type :=
| float64 | float32 | decimal | high_precision.

Record PrecisionConfig : Type := {
  mode : PrecisionMode;
  roundingMode : RoundingMode;
  decimalPlaces : Z;
  epsilon : JS.number;
  maxValue : JS.number;
  minValue : JS.number
}.

Module PrecisionManager.

(** The process-wide state every primitive reads: the static [config]
    and the settings last given to [Decimal.set].  The tally
    [operationCount] is left out: nothing modelled here reads it. *)
Record env : Type := {
  config : PrecisionConfig;
  decimalSettings : Decimal.settings
}.

Definition EPSILON_FLOAT64 : JS.number := 2.220446049250313e-16%float.

Definition defaultConfig : PrecisionConfig := {|
  mode := decimal;
  roundingMode := ROUND_HALF_EVEN;
  decimalPlaces := 30;
  epsilon := EPSILON_FLOAT64;
  maxValue := 9007199254740991%float;
  minValue := (-9007199254740991)%float
|}.

(** State at module load: [config] is a copy of [defaultConfig] and
    [Decimal.set] was given precision 30, ROUND_HALF_EVEN. *)
Definition initial : env := {|
  config := defaultConfig;
  decimalSettings := {| Decimal.precision := 30; Decimal.rounding := ROUND_HALF_EVEN |}
|}.

(** [configure], on the merged configuration: [validateConfig] hands
    [decimalPlaces] and the rounding constant to [Decimal.set]. *)
Definition configure (merged : PrecisionConfig) (_ : env) : env := {|
  config := merged;
  decimalSettings := {| Decimal.precision := decimalPlaces merged;
                        Decimal.rounding := roundingMode merged |}
|}.

Definition reset (e : env) : env := {|
  config := defaultConfig;
  decimalSettings := decimalSettings e
|}.

Section WithEnv.

Variable e : env.

Definition normalize (value : JS.number) : res JS.number :=
  if negb (JS.isFinite value) then Throw (DeterminismError "normalize")
  else
    match mode (config e) with
    | decimal =>
        Ok (Decimal.toNumber
              (Decimal.toDecimalPlaces (decimalPlaces (config e))
                 (roundingMode (config e)) (Decimal.of_number value)))
    | _ => Ok value
    end.

Definition validateInputs (a b : JS.number) (operation : string) : res unit :=
  if negb (JS.isFinite a) then Throw (DeterminismError operation)
  else if negb (JS.isFinite b) then Throw (DeterminismError operation)
  else Ok tt.

Definition finalizeResult (result : Decimal.t) (operation : string) : res JS.number :=
  let value := Decimal.toNumber result in
  if negb (JS.isFinite value) then Throw (DeterminismError operation)
  else normalize value.

Definition add (a b : JS.number) : res JS.number :=
  let* _ := validateInputs a b "add" in
  finalizeResult
    (Decimal.plus (decimalSettings e) (Decimal.of_number a) (Decimal.of_number b)) "add".

Definition subtract (a b : JS.number) : res JS.number :=
  let* _ := validateInputs a b "subtract" in
  finalizeResult
    (Decimal.minus (decimalSettings e) (Decimal.of_number a) (Decimal.of_number b))
    "subtract".

Definition multiply (a b : JS.number) : res JS.number :=
  let* _ := validateInputs a b "multiply" in
  finalizeResult
    (Decimal.times (decimalSettings e) (Decimal.of_number a) (Decimal.of_number b))
    "multiply".

Definition divide (a b : JS.number) : res JS.number :=
  let* _ := validateInputs a b "divide" in
  if PrimFloat.ltb (PrimFloat.abs b) (epsilon (config e))
  then Throw (DeterminismError "divide")
  else
    finalizeResult
      (Decimal.dividedBy (decimalSettings e) (Decimal.of_number a) (Decimal.of_number b))
      "divide".

(** [compare(a, b, epsilon?)]; the result is -1, 0 or 1. *)
Definition compare (a b : JS.number) (eps : option JS.number) : res Z :=
  let epsilon_ := match eps with Some x => x | None => epsilon (config e) end in
  if negb (JS.isFinite a) || negb (JS.isFinite b)
  then Throw (DeterminismError "compare")
  else
    let diff := PrimFloat.abs (PrimFloat.sub a b) in
    if PrimFloat.ltb diff epsilon_ then Ok 0
    else Ok (if PrimFloat.ltb a b then -1 else 1).

Definition equals (a b : JS.number) (eps : option JS.number) : res bool :=
  let* c := compare a b eps in Ok (c =? 0).

Definition greaterThan (a b : JS.number) (eps : option JS.number) : res bool :=
  let* c := compare a b eps in Ok (0 <? c).

Definition lessThan (a b : JS.number) (eps : option JS.number) : res bool :=
  let* c := compare a b eps in Ok (c <? 0).

Definition lerp (a b t : JS.number) : res JS.number :=
  let* _ := validateInputs a b "lerp" in
  if PrimFloat.ltb t 0%float || PrimFloat.ltb 1%float t
  then Throw (DeterminismError "lerp")
  else
    let* oneMinusT := subtract 1%float t in
    let* term1 := multiply oneMinusT a in
    let* term2 := multiply t b in
    add term1 term2.

Definition midpoint (a b : JS.number) : res JS.number := lerp a b 0.5%float.

End WithEnv.

End PrecisionManager.

(** ** Operation budget: [OperationCounter], [CircuitBreaker], [DeterministicTimeout] *)

Record CircuitBreakerConfig : Type := {
  cfg_maxOperations : Z;
  cfg_name : string
}.

Module OperationCounter.

(** The three static fields of the class.  The two maps are kept as
    association lists, newest binding first. *)
Record state : Type := {
  counters : list (string * Z);
  circuitBreakers : list (string * CircuitBreakerConfig);
  globalCounter : Z
}.

Definition initial : state :=
  {| counters := []; circuitBreakers := []; globalCounter := 0 |}.

Definition increment (s : state) : state :=
  {| counters := counters s;
     circuitBreakers := circuitBreakers s;
     globalCounter := globalCounter s + 1 |}.

Definition getGlobalCount (s : state) : Z := globalCounter s.

Definition reset (_ : state) : state := initial.

Definition setCounterValue (name : string) (value : Z) (s : state) : state :=
  {| counters := (name, value) :: counters s;
     circuitBreakers := circuitBreakers s;
     globalCounter := globalCounter s |}.

Fixpoint lookup {V : Type} (name : string) (m : list (string * V)) : option V :=
  match m with
  | [] => None
  | (k, v) :: m' => if String.eqb k name then Some v else lookup name m'
  end.

Definition getCounterValue (name : string) (s : state) : Z :=
  match lookup name (counters s) with
  | Some v => v
  | None => 0
  end.

(** [createCounter(name)]: the [Counter] constructor registers the name at 0. *)
Definition createCounter (name : string) (s : state) : state :=
  setCounterValue name 0 s.

End OperationCounter.

Module CircuitBreaker.

Record t : Type := {
  name : string;
  maxOperations : Z;
  operationCount : Z;
  isTripped : bool
}.

Definition make (name : string) (maxOperations : Z) : t :=
  {| name := name; maxOperations := maxOperations;
     operationCount := 0; isTripped := false |}.

Definition getTripped (b : t) : bool := isTripped b.
Definition getOperationCount (b : t) : Z := operationCount b.
Definition getMaxOperations (b : t) : Z := maxOperations b.

Definition reset (b : t) : t :=
  {| name := name b; maxOperations := maxOperations b;
     operationCount := 0; isTripped := false |}.

Definition getRemaining (b : t) : Z := Z.max 0 (maxOperations b - operationCount b).

Definition wouldExceed (additionalOps : Z) (b : t) : bool :=
  maxOperations b <? operationCount b + additionalOps.

Definition count_up (b : t) : t :=
  {| name := name b; maxOperations := maxOperations b;
     operationCount := operationCount b + 1; isTripped := isTripped b |}.

Definition trip (b : t) : t :=
  {| name := name b; maxOperations := maxOperations b;
     operationCount := operationCount b; isTripped := true |}.

Section Execute.

(** [W] is whatever program state the callbacks read and write (the
    test suite's callback bumps the global operation counter), [T]
    the callbacks' result type. *)
Context {W T : Type}.

Definition callback : Type := W -> res T * W.

Definition execute (fn : callback) (fallback : option callback)
           (b : t) (w : W) : res T * (t * W) :=
  let b := count_up b in
  if maxOperations b <? operationCount b then
    let b := trip b in
    match fallback with
    | Some fb => let '(r, w') := fb w in (r, (b, w'))
    | None =>
        (Throw (CircuitBreakerError (name b) (maxOperations b) (operationCount b)),
         (b, w))
    end
  else
    let '(r, w') := fn w in
    match r with
    | Ok v => (Ok v, (b, w'))
    | Throw err => (Throw err, (trip b, w'))
    end.

(** A run of [execute] calls on one breaker, results in call order. *)
Fixpoint run (calls : list (callback * option callback)) (b : t) (w : W)
  : list (res T) * (t * W) :=
  match calls with
  | [] => ([], (b, w))
  | (fn, fallback) :: rest =>
      let '(r, (b', w')) := execute fn fallback b w in
      let '(rs, s) := run rest b' w' in
      (r :: rs, s)
  end.

End Execute.

End CircuitBreaker.

Definition registerCircuitBreaker (config : CircuitBreakerConfig)
           (s : OperationCounter.state) : CircuitBreaker.t * OperationCounter.state :=
  (CircuitBreaker.make (cfg_name config) (cfg_maxOperations config),
   {| OperationCounter.counters := OperationCounter.counters s;
      OperationCounter.circuitBreakers :=
        (cfg_name config, config) :: OperationCounter.circuitBreakers s;
      OperationCounter.globalCounter := OperationCounter.globalCounter s |}).

Module DeterministicTimeout.

Record t : Type := {
  maxOperations : Z;
  startCount : Z;
  operationLimit : Z
}.

(** The constructor also registers a named counter. *)
Definition make (maxOperations : Z) (name : string) (s : OperationCounter.state)
  : t * OperationCounter.state :=
  let s := OperationCounter.createCounter name s in
  let start := OperationCounter.getGlobalCount s in
  ({| maxOperations := maxOperations;
      startCount := start;
      operationLimit := start + maxOperations |}, s).

Definition hasElapsed (d : t) (s : OperationCounter.state) : bool :=
  operationLimit d <=? OperationCounter.getGlobalCount s.

Definition getRemaining (d : t) (s : OperationCounter.state) : Z :=
  Z.max 0 (operationLimit d - OperationCounter.getGlobalCount s).

Definition getElapsed (d : t) (s : OperationCounter.state) : Z :=
  OperationCounter.getGlobalCount s - startCount d.

End DeterministicTimeout.

(** ** Points and [Array.prototype.sort] *)

Module Point.
Record t : Type := mk { x : JS.number; y : JS.number }.
End Point.

(** [Array.prototype.sort(comparefn)], modelled as the stable insertion
    procedure: each element, in array order, is placed before the first
    already-placed element it compares below.  A throwing [comparefn]
    aborts the sort. *)
Section ArraySort.

Context {A : Type}.
Variable comparefn : A -> A -> res Z.

Fixpoint insert (v : A) (sorted : list A) : res (list A) :=
  match sorted with
  | [] => Ok [v]
  | h :: rest =>
      let* order := comparefn v h in
      if order <? 0 then Ok (v :: h :: rest)
      else let* rest' := insert v rest in Ok (h :: rest')
  end.

Fixpoint sort_into (placed : list A) (pending : list A) : res (list A) :=
  match pending with
  | [] => Ok placed
  | v :: pending' =>
      let* placed' := insert v placed in
      sort_into placed' pending'
  end.

Definition Array_sort (l : list A) : res (list A) := sort_into [] l.


End ArraySort.

(** ** Adaptive Sampler *)

Module AdaptiveSampler.

Record SamplingOptions : Type := {
  maxPoints : option N;
  tolerance : option JS.number;
  maxDepth : option N;
  maxOperations : option N
}.

Definition no_options : SamplingOptions :=
  {| maxPoints := None; tolerance := None; maxDepth := None; maxOperations := None |}.

(** The instance fields set by the constructor. *)
Record t : Type := {
  this_maxPoints : N;
  this_tolerance : JS.number;
  this_maxDepth : N;
  this_maxOperations : N
}.

Definition constructor (options : SamplingOptions) : t := {|
  this_maxPoints := JS.or_count (maxPoints options) 10000;
  this_tolerance := JS.or_default (tolerance options) 0.1%float;
  this_maxDepth := JS.or_count (maxDepth options) 20;
  this_maxOperations := JS.or_count (maxOperations options) 100000
|}.

Definition isValid (value : JS.number) : bool := JS.isFinite value.

(** An evaluator either returns a number or throws. *)
Definition evaluator : Type := JS.number -> res JS.number.

Definition safeEvaluate (fn : evaluator) (x : JS.number) : JS.number :=
  match fn x with
  | Ok result => if isValid result then result else nan
  | Throw _ => nan
  end.

(** A pending interval [(a, b, depth)]; the head of the list is the top
    of the stack. *)
Definition interval : Type := JS.number * JS.number * N.

Section Sample.

Variable e : PrecisionManager.env.
Variable fn : evaluator.

Fixpoint addPoints_from (todo i count : nat) (a b : JS.number)
         (points : list Point.t) : res (list Point.t) :=
  match todo with
  | O => Ok points
  | S todo' =>
      let* t := if Nat.eqb count 1 then Ok 0%float
                else PrecisionManager.divide e (JS.of_nat i) (JS.of_nat (count - 1)) in
      let* interval := PrecisionManager.subtract e b a in
      let* scaled := PrecisionManager.multiply e t interval in
      let* x := PrecisionManager.add e a scaled in
      let y := safeEvaluate fn x in
      addPoints_from todo' (S i) count a b
        (if isValid y then points ++ [Point.mk x y] else points)
  end.

Definition addPoints (a b : JS.number) (points : list Point.t) (count : nat)
  : res (list Point.t) :=
  addPoints_from count 0 count a b points.

Variable localMaxPoints : N.
Variable localTolerance : JS.number.
Variable localMaxDepth : N.
Variable operationTimeout : DeterministicTimeout.t.

(** The body of the [while] loop after the interval [(a, b, depth)]
    was popped: the new stack and point list. *)
Definition iteration (a b : JS.number) (depth : N) (stack : list interval)
           (points : list Point.t) : res (list interval * list Point.t) :=
  if (localMaxDepth <=? depth)%N then
    let* points := addPoints a b points 2 in Ok (stack, points)
  else
    let* mid := PrecisionManager.midpoint e a b in
    let fa := safeEvaluate fn a in
    let fb := safeEvaluate fn b in
    let fm := safeEvaluate fn mid in
    if negb (isValid fa) || negb (isValid fb) || negb (isValid fm) then
      let* points := addPoints a b points 2 in Ok (stack, points)
    else
      let* expectedMidY := PrecisionManager.midpoint e fa fb in
      let* diff := PrecisionManager.subtract e fm expectedMidY in
      let error := PrimFloat.abs diff in
      let* flat := PrecisionManager.lessThan e error localTolerance None in
      if flat then
        let* points := addPoints a b points 2 in Ok (stack, points)
      else
        Ok ((a, mid, (depth + 1)%N) :: (mid, b, (depth + 1)%N) :: stack, points).

(** The [while] loop.  Each evaluation of the loop condition uses one
    unit of [fuel]; [None] means the fuel ran out. *)
Fixpoint loop (fuel : nat) (oc : OperationCounter.state) (stack : list interval)
         (points : list Point.t)
  : option (res (list Point.t) * OperationCounter.state) :=
  match fuel with
  | O => None
  | S fuel' =>
      match stack with
      | [] => Some (Ok points, oc)
      | (a, b, depth) :: stack' =>
          if (N.of_nat (List.length points) <? localMaxPoints)%N then
            let oc := OperationCounter.increment oc in
            if DeterministicTimeout.hasElapsed operationTimeout oc
            then Some (Ok points, oc)
            else
              match iteration a b depth stack' points with
              | Ok (stack'', points') => loop fuel' oc stack'' points'
              | Throw err => Some (Throw err, oc)
              end
          else Some (Ok points, oc)
      end
  end.

End Sample.

Definition by_x (e : PrecisionManager.env) (a b : Point.t) : res Z :=
  PrecisionManager.compare e (Point.x a) (Point.x b) None.

(** [sample(fn, domain, options)] on the sampler [self], threading the
    global operation counter.  The loop is given one more unit of fuel
    than the operation budget. *)
Definition sample (self : t) (e : PrecisionManager.env) (fn : evaluator)
           (domain : JS.number * JS.number) (options : SamplingOptions)
           (oc : OperationCounter.state)
  : option (res (list Point.t) * OperationCounter.state) :=
  let budget := JS.or_count (maxOperations options) (this_maxOperations self) in
  let '(operationTimeout, oc) :=
    DeterministicTimeout.make (Z.of_N budget) "adaptive-sampler" oc in
  let localMaxPoints := JS.or_count (maxPoints options) (this_maxPoints self) in
  let localTolerance := JS.or_default (tolerance options) (this_tolerance self) in
  let localMaxDepth := JS.or_count (maxDepth options) (this_maxDepth self) in
  match loop e fn localMaxPoints localTolerance localMaxDepth operationTimeout
             (S (N.to_nat budget)) oc [(fst domain, snd domain, 0%N)] [] with
  | None => None
  | Some (Throw err, oc) => Some (Throw err, oc)
  | Some (Ok points, oc) => Some (Array_sort (by_x e) points, oc)
  end.

End AdaptiveSampler.

(** ** Viewport *)

Record Viewport : Type := {
  xMin : JS.number;
  xMax : JS.number;
  yMin : JS.number;
  yMax : JS.number;
  pixelRatio : JS.number
}.

Record ViewportConstraints : Type := {
  minXRange : JS.number;
  minYRange : JS.number;
  maxXRange : JS.number;
  maxYRange : JS.number;
  maxZoomLevel : JS.number
}.

(** [Partial<Viewport>] and [Partial<ViewportConstraints>]: every field
    may be absent. *)
Record PartialViewport : Type := {
  p_xMin : option JS.number;
  p_xMax : option JS.number;
  p_yMin : option JS.number;
  p_yMax : option JS.number;
  p_pixelRatio : option JS.number
}.

Record PartialConstraints : Type := {
  p_minXRange : option JS.number;
  p_minYRange : option JS.number;
  p_maxXRange : option JS.number;
  p_maxYRange : option JS.number;
  p_maxZoomLevel : option JS.number
}.

Definition override {A : Type} (base : A) (over : option A) : A :=
  match over with
  | Some v => v
  | None => base
  end.

(** Object spread [{ ...base, ...over }]. *)
Definition spread_viewport (base : Viewport) (over : PartialViewport) : Viewport := {|
  xMin := override (xMin base) (p_xMin over);
  xMax := override (xMax base) (p_xMax over);
  yMin := override (yMin base) (p_yMin over);
  yMax := override (yMax base) (p_yMax over);
  pixelRatio := override (pixelRatio base) (p_pixelRatio over)
|}.

Definition spread_constraints (base : ViewportConstraints) (over : PartialConstraints)
  : ViewportConstraints := {|
  minXRange := override (minXRange base) (p_minXRange over);
  minYRange := override (minYRange base) (p_minYRange over);
  maxXRange := override (maxXRange base) (p_maxXRange over);
  maxYRange := override (maxYRange base) (p_maxYRange over);
  maxZoomLevel := override (maxZoomLevel base) (p_maxZoomLevel over)
|}.

Definition empty_viewport : PartialViewport :=
  {| p_xMin := None; p_xMax := None; p_yMin := None; p_yMax := None;
     p_pixelRatio := None |}.

Definition empty_constraints : PartialConstraints :=
  {| p_minXRange := None; p_minYRange := None; p_maxXRange := None;
     p_maxYRange := None; p_maxZoomLevel := None |}.

Module GraphViewport.

(** The private fields.  [history] is in array order: oldest entry
    first, most recent last. *)
Record t : Type := {
  viewport : Viewport;
  constraints : ViewportConstraints;
  history : list Viewport
}.

Definition maxHistorySize : nat := 50.

(** Methods run in a state-and-exception monad over the object: a
    throw keeps the assignments already made. *)
Definition M (A : Type) : Type := t -> res A * t.

Definition ret {A : Type} (a : A) : M A := fun s => (Ok a, s).

Definition bindM {A B : Type} (m : M A) (k : A -> M B) : M B :=
  fun s =>
    match m s with
    | (Ok a, s') => k a s'
    | (Throw err, s') => (Throw err, s')
    end.

Notation "x <- m ;; k" := (bindM m (fun x => k))
  (at level 61, m at next level, right associativity).
Notation "m ;;; k" := (bindM m (fun _ => k))
  (at level 61, right associativity).

(** A computation that only reads the object. *)
Definition read {A : Type} (f : t -> res A) : M A := fun s => (f s, s).

Definition pure {A : Type} (r : res A) : M A := fun s => (r, s).

Definition modify_viewport (f : Viewport -> Viewport) : M unit :=
  fun s => (Ok tt, {| viewport := f (viewport s);
                      constraints := constraints s;
                      history := history s |}).

Definition set_xMin (v : JS.number) : M unit :=
  modify_viewport (fun vp => {| xMin := v; xMax := xMax vp; yMin := yMin vp;
                                yMax := yMax vp; pixelRatio := pixelRatio vp |}).
Definition set_xMax (v : JS.number) : M unit :=
  modify_viewport (fun vp => {| xMin := xMin vp; xMax := v; yMin := yMin vp;
                                yMax := yMax vp; pixelRatio := pixelRatio vp |}).
Definition set_yMin (v : JS.number) : M unit :=
  modify_viewport (fun vp => {| xMin := xMin vp; xMax := xMax vp; yMin := v;
                                yMax := yMax vp; pixelRatio := pixelRatio vp |}).
Definition set_yMax (v : JS.number) : M unit :=
  modify_viewport (fun vp => {| xMin := xMin vp; xMax := xMax vp; yMin := yMin vp;
                                yMax := v; pixelRatio := pixelRatio vp |}).

Definition defaultViewport (ratio : JS.number) : Viewport :=
  {| xMin := (-10)%float; xMax := 10%float; yMin := (-10)%float; yMax := 10%float;
     pixelRatio := ratio |}.

Definition defaultConstraints : ViewportConstraints :=
  {| minXRange := 1e-10%float; minYRange := 1e-10%float;
     maxXRange := 1e12%float; maxYRange := 1e12%float;
     maxZoomLevel := 1e12%float |}.

(** [history.push({...viewport})], then [shift()] when over capacity. *)
Definition push_bounded (v : Viewport) (h : list Viewport) : list Viewport :=
  let h' := h ++ [v] in
  if Nat.ltb maxHistorySize (List.length h') then tl h' else h'.

Definition saveToHistory : M unit :=
  fun s => (Ok tt, {| viewport := viewport s;
                      constraints := constraints s;
                      history := push_bounded (viewport s) (history s) |}).

Definition constructor (initialViewport : PartialViewport)
           (constraints : PartialConstraints) : t :=
  snd (saveToHistory
         {| viewport := spread_viewport (defaultViewport 1%float) initialViewport;
            constraints := spread_constraints defaultConstraints constraints;
            history := [] |}).

Definition current (s : t) : Viewport := viewport s.

Section Methods.

Variable e : PrecisionManager.env.

Definition width (s : t) : res JS.number :=
  PrecisionManager.subtract e (xMax (viewport s)) (xMin (viewport s)).

Definition height (s : t) : res JS.number :=
  PrecisionManager.subtract e (yMax (viewport s)) (yMin (viewport s)).


Definition zoomLevel (s : t) : res JS.number :=
  let* w := width s in PrecisionManager.divide e 20%float w.



(** [a || b] on two conditions that may throw. *)
Definition orM (a b : M bool) : M bool :=
  c <- a ;; if c then ret true else b.

Definition when (c : M bool) (body : M unit) : M unit :=
  b <- c ;; if b then body else ret tt.

Definition recenter_x (range : JS.number) : M unit :=
  centerX <- read (fun s => PrecisionManager.midpoint e (xMin (viewport s))
                                                      (xMax (viewport s))) ;;
  half <- pure (PrecisionManager.divide e range 2%float) ;;
  lo <- pure (PrecisionManager.subtract e centerX half) ;;
  set_xMin lo ;;;
  half' <- pure (PrecisionManager.divide e range 2%float) ;;
  hi <- pure (PrecisionManager.add e centerX half') ;;
  set_xMax hi.

Definition recenter_y (range : JS.number) : M unit :=
  centerY <- read (fun s => PrecisionManager.midpoint e (yMin (viewport s))
                                                      (yMax (viewport s))) ;;
  half <- pure (PrecisionManager.divide e range 2%float) ;;
  lo <- pure (PrecisionManager.subtract e centerY half) ;;
  set_yMin lo ;;;
  half' <- pure (PrecisionManager.divide e range 2%float) ;;
  hi <- pure (PrecisionManager.add e centerY half') ;;
  set_yMax hi.

Definition enforceConstraints : M unit :=
  when (read (fun s => PrecisionManager.greaterThan e (xMin (viewport s))
                                                     (xMax (viewport s)) None))
       (modify_viewport (fun vp => {| xMin := xMax vp; xMax := xMin vp;
                                      yMin := yMin vp; yMax := yMax vp;
                                      pixelRatio := pixelRatio vp |})) ;;;
  when (read (fun s => PrecisionManager.greaterThan e (yMin (viewport s))
                                                     (yMax (viewport s)) None))
       (modify_viewport (fun vp => {| xMin := xMin vp; xMax := xMax vp;
                                      yMin := yMax vp; yMax := yMin vp;
                                      pixelRatio := pixelRatio vp |})) ;;;
  when (read (fun s => let* w := width s in
                       PrecisionManager.lessThan e w (minXRange (constraints s)) None))
       (r <- read (fun s => Ok (minXRange (constraints s))) ;; recenter_x r) ;;;
  when (read (fun s => let* h := height s in
                       PrecisionManager.lessThan e h (minYRange (constraints s)) None))
       (r <- read (fun s => Ok (minYRange (constraints s))) ;; recenter_y r) ;;;
  when (read (fun s => let* w := width s in
                       PrecisionManager.greaterThan e w (maxXRange (constraints s)) None))
       (r <- read (fun s => Ok (maxXRange (constraints s))) ;; recenter_x r) ;;;
  when (read (fun s => let* h := height s in
                       PrecisionManager.greaterThan e h (maxYRange (constraints s)) None))
       (r <- read (fun s => Ok (maxYRange (constraints s))) ;; recenter_y r).

Definition pan (dx dy : JS.number) : M unit :=
  v <- read (fun s => PrecisionManager.add e (xMin (viewport s)) dx) ;; set_xMin v ;;;
  v <- read (fun s => PrecisionManager.add e (xMax (viewport s)) dx) ;; set_xMax v ;;;
  v <- read (fun s => PrecisionManager.add e (yMin (viewport s)) dy) ;; set_yMin v ;;;
  v <- read (fun s => PrecisionManager.add e (yMax (viewport s)) dy) ;; set_yMax v ;;;
  enforceConstraints ;;;
  saveToHistory.


Definition setViewport (newViewport : PartialViewport) : M unit :=
  modify_viewport (fun vp => spread_viewport vp newViewport) ;;;
  enforceConstraints ;;;
  saveToHistory.

(** The bounding box accumulated by the [for] loop of [fitToPoints]:
    [(xMin, xMax, yMin, yMax)]. *)
Fixpoint bounds (points : list Point.t)
         (acc : JS.number * JS.number * JS.number * JS.number)
  : JS.number * JS.number * JS.number * JS.number :=
  match points with
  | [] => acc
  | p :: rest =>
      let '(x0, x1, y0, y1) := acc in
      bounds rest (JS.min x0 (Point.x p), JS.max x1 (Point.x p),
                   JS.min y0 (Point.y p), JS.max y1 (Point.y p))
  end.

Definition fitToPoints (points : list Point.t) (padding : JS.number) : M unit :=
  match points with
  | [] => ret tt
  | _ =>
      let '(x0, x1, y0, y1) :=
        bounds points (infinity, neg_infinity, infinity, neg_infinity) in
      w <- pure (PrecisionManager.subtract e x1 x0) ;;
      h <- pure (PrecisionManager.subtract e y1 y0) ;;
      pad <- pure (PrecisionManager.multiply e w padding) ;;
      v <- pure (PrecisionManager.subtract e x0 pad) ;; set_xMin v ;;;
      pad <- pure (PrecisionManager.multiply e w padding) ;;
      v <- pure (PrecisionManager.add e x1 pad) ;; set_xMax v ;;;
      pad <- pure (PrecisionManager.multiply e h padding) ;;
      v <- pure (PrecisionManager.subtract e y0 pad) ;; set_yMin v ;;;
      pad <- pure (PrecisionManager.multiply e h padding) ;;
      v <- pure (PrecisionManager.add e y1 pad) ;; set_yMax v ;;;
      enforceConstraints ;;;
      saveToHistory
  end.

End Methods.

Definition reset : M unit :=
  modify_viewport (fun vp => defaultViewport (pixelRatio vp)) ;;;
  saveToHistory.


(** A computation that leaves the constraints and the history alone. *)
Definition frames {A : Type} (m : M A) : Prop :=
  forall s, history (snd (m s)) = history s /\ constraints (snd (m s)) = constraints s.

(** [undo()]: two [pop]s, then the popped entry becomes the viewport
    and is recorded again. *)
Definition undo : M bool :=
  fun s =>
    if Nat.leb (List.length (history s)) 1 then (Ok false, s)
    else
      let h1 := removelast (history s) in
      match List.rev h1 with
      | previous :: _ =>
          (saveToHistory ;;; ret true)
            {| viewport := previous; constraints := constraints s;
               history := removelast h1 |}
      | [] =>
          (Ok false, {| viewport := viewport s; constraints := constraints s;
                        history := [] |})
      end.

End GraphViewport.

(** ** Coordinate Transformer (linear variant) *)

Record Transform : Type := {
  forward : Point.t -> res Point.t;
  inverse : Point.t -> res Point.t;
  jacobian : Point.t -> res JS.number
}.


Module CoordinateTransformer.



Definition transformPoints (points : list Point.t) (t : Transform)
  : list (res Point.t) :=
  map (forward t) points.

End CoordinateTransformer.

(** ** Implicit contour extractor *)

Module MarchingSquares.

Definition Polyline : Type := list Point.t.

Record MarchingOptions : Type := {
  cols : option N;
  rows : option N;
  iso : option JS.number;
  maxSegments : option N
}.

Definition no_options : MarchingOptions :=
  {| cols := None; rows := None; iso := None; maxSegments := None |}.

Definition field : Type := JS.number -> JS.number -> res JS.number.

(** Marching squares case table. *)
Definition edgeTable : list (list nat) :=
  [ []; [0; 3]; [3; 2]; [0; 2]; [1; 2]; [0; 1; 2; 3]; [1; 3]; [0; 1];
    [0; 1]; [1; 3]; [0; 1; 2; 3]; [1; 2]; [0; 2]; [3; 2]; [0; 3]; [] ]%nat.

Section Run.

Local Open Scope float_scope.

Variable fn : field.
Variables xMin xMax yMin yMax : JS.number.
Variables ncols nrows : nat.
Variable isoV : JS.number.
Variable limit : nat.

Definition dx : JS.number := (xMax - xMin) / JS.of_nat ncols.
Definition dy : JS.number := (yMax - yMin) / JS.of_nat nrows.

(** One evaluation of the field, as stored in the grid. *)
Definition sample_at (i j : nat) : JS.number :=
  let y := yMin + JS.of_nat j * dy in
  let x := xMin + JS.of_nat i * dx in
  match fn x y with
  | Ok v => if JS.isFinite v then v else nan
  | Throw _ => nan
  end.

(** [grid[j][i]] for [0 <= j <= rows], [0 <= i <= cols]. *)
Definition grid : list (list JS.number) :=
  map (fun j => map (fun i => sample_at i j) (seq 0 (S ncols))) (seq 0 (S nrows)).

Definition at_ (g : list (list JS.number)) (j i : nat) : JS.number :=
  nth i (nth j g []) nan.

(** The two ends of an edge of cell [(i, j)], each with its grid
    value; edge: 0=left, 1=top, 2=right, 3=bottom. *)
Definition edge_ends (g : list (list JS.number)) (i j edge : nat)
  : (JS.number * JS.number * JS.number) * (JS.number * JS.number * JS.number) :=
  match edge with
  | 0%nat =>
      ((xMin + JS.of_nat i * dx, yMin + JS.of_nat j * dy, at_ g j i),
       (xMin + JS.of_nat i * dx, yMin + JS.of_nat (j + 1) * dy, at_ g (j + 1) i))
  | 1%nat =>
      ((xMin + JS.of_nat i * dx, yMin + JS.of_nat (j + 1) * dy, at_ g (j + 1) i),
       (xMin + JS.of_nat (i + 1) * dx, yMin + JS.of_nat (j + 1) * dy,
        at_ g (j + 1) (i + 1)))
  | 2%nat =>
      ((xMin + JS.of_nat (i + 1) * dx, yMin + JS.of_nat (j + 1) * dy,
        at_ g (j + 1) (i + 1)),
       (xMin + JS.of_nat (i + 1) * dx, yMin + JS.of_nat j * dy, at_ g j (i + 1)))
  | _ =>
      ((xMin + JS.of_nat (i + 1) * dx, yMin + JS.of_nat j * dy, at_ g j (i + 1)),
       (xMin + JS.of_nat i * dx, yMin + JS.of_nat j * dy, at_ g j i))
  end.

(** The interpolation parameter and the interpolated point. *)
Definition crossing (v1 v2 : JS.number) : JS.number := (isoV - v1) / (v2 - v1).

Definition interpolate (t x1 y1 x2 y2 : JS.number) : Point.t :=
  Point.mk (x1 + t * (x2 - x1)) (y1 + t * (y2 - y1)).

Definition sampleEdge (g : list (list JS.number)) (i j edge : nat) : option Point.t :=
  let '((x1, y1, v1), (x2, y2, v2)) := edge_ends g i j edge in
  if negb (JS.isFinite v1) || negb (JS.isFinite v2) then None
  else
    let t := crossing v1 v2 in
    if negb (JS.isFinite t) then None
    else Some (interpolate t x1 y1 x2 y2).

Definition above (v : JS.number) : bool := JS.isFinite v && PrimFloat.ltb isoV v.

Definition bit (b : bool) : nat := if b then 1%nat else 0%nat.

Definition cell_index (g : list (list JS.number)) (i j : nat) : nat :=
  let b0 := bit (above (at_ g j i)) in
  let b1 := bit (above (at_ g j (i + 1))) in
  let b2 := bit (above (at_ g (j + 1) (i + 1))) in
  let b3 := bit (above (at_ g (j + 1) i)) in
  Nat.lor b0 (Nat.lor (Nat.shiftl b1 1) (Nat.lor (Nat.shiftl b2 2) (Nat.shiftl b3 3))).

(** The inner [for (k ...)] loop: the samples of the crossed edges. *)
Fixpoint collect (g : list (list JS.number)) (i j : nat) (edges : list nat)
         (poly : Polyline) : Polyline :=
  match edges with
  | [] => poly
  | edge :: edges' =>
      match sampleEdge g i j edge with
      | Some p => collect g i j edges' (poly ++ [p])
      | None => collect g i j edges' poly
      end
  end.

(** The two nested [for] loops over the cells, in visiting order,
    with the early [return] once [limit] segments are held. *)
Fixpoint march (g : list (list JS.number)) (cells : list (nat * nat))
         (segments : list Polyline) : list Polyline :=
  match cells with
  | [] => segments
  | (i, j) :: cells' =>
      match nth (cell_index g i j) edgeTable [] with
      | [] => march g cells' segments
      | edges =>
          let poly := collect g i j edges [] in
          if Nat.leb 2 (List.length poly) then
            let segments := segments ++ [poly] in
            if Nat.leb limit (List.length segments) then segments
            else march g cells' segments
          else march g cells' segments
      end
  end.

Definition cells : list (nat * nat) :=
  flat_map (fun j => map (fun i => (i, j)) (seq 0 ncols)) (seq 0 nrows).

Definition extract : list Polyline := march grid cells [].

End Run.

Definition marchingSquares (fn : field) (xMin xMax yMin yMax : JS.number)
           (options : MarchingOptions) : list Polyline :=
  let ncols := JS.or_count (cols options) 128 in
  let nrows := JS.or_count (rows options) 128 in
  let isoV := match iso options with Some v => v | None => 0%float end in
  let limit := JS.or_count (maxSegments options) 10000 in
  extract fn xMin xMax yMin yMax (N.to_nat ncols) (N.to_nat nrows) isoV (N.to_nat limit).


End MarchingSquares.

(** ** Numerical proof system: the test grid *)

Module NumericalProofSystem.


End NumericalProofSystem.

(** ** Inputs used in the examples *)

Module Inputs.

Definition identity : AdaptiveSampler.evaluator := fun x => Ok x.

Definition constant_one : AdaptiveSampler.evaluator := fun _ => Ok 1%float.


Definition sampler : AdaptiveSampler.t :=
  AdaptiveSampler.constructor AdaptiveSampler.no_options.

(** [{ maxPoints: 1 }] *)
Definition one_point : AdaptiveSampler.SamplingOptions :=
  {| AdaptiveSampler.maxPoints := Some 1%N; AdaptiveSampler.tolerance := None;
     AdaptiveSampler.maxDepth := None; AdaptiveSampler.maxOperations := None |}.

(** [{ xMin: 5, xMax: 1 }] *)
Definition inverted : PartialViewport :=
  {| p_xMin := Some 5%float; p_xMax := Some 1%float; p_yMin := None; p_yMax := None;
     p_pixelRatio := None |}.

(** [new GraphViewport()] *)
Definition fresh_viewport : GraphViewport.t :=
  GraphViewport.constructor empty_viewport empty_constraints.









End Inputs.

(** * Properties *)

(** Closes a conjunction of closed equations by evaluation. *)
Ltac by_evaluation := repeat apply conj; vm_compute; reflexivity.

(** ** Circuit breaker *)

Section CircuitBreakerFacts.

Context {W T : Type}.
Import CircuitBreaker.

Let cb : Type := @callback W T.
Let call : Type := (cb * option cb)%type.

Lemma execute_count (fn : cb) (fallback : option cb) (b : t) (w : W) :
  operationCount (fst (snd (execute fn fallback b w))) = operationCount b + 1
  /\ maxOperations (fst (snd (execute fn fallback b w))) = maxOperations b
  /\ name (fst (snd (execute fn fallback b w))) = name b.
Proof.
  unfold execute; cbn.
  destruct (maxOperations b <? operationCount b + 1).
  - destruct fallback as [fb |]; [destruct (fb w) |]; cbn; auto.
  - destruct (fn w) as [[v | err] w']; cbn; auto.
Qed.

Lemma execute_keeps_tripped (fn : cb) (fallback : option cb) (b : t) (w : W) :
  isTripped b = true -> isTripped (fst (snd (execute fn fallback b w))) = true.
Proof.
  intros Hb. unfold execute; cbn.
  destruct (maxOperations b <? operationCount b + 1).
  - destruct fallback as [fb |]; [destruct (fb w) |]; reflexivity.
  - destruct (fn w) as [[v | err] w']; cbn; auto.
Qed.

Lemma run_count (calls : list call) (b : t) (w : W) :
  operationCount (fst (snd (run calls b w)))
  = operationCount b + Z.of_nat (List.length calls)
  /\ maxOperations (fst (snd (run calls b w))) = maxOperations b
  /\ name (fst (snd (run calls b w))) = name b.
Proof.
  revert b w. induction calls as [| [fn fb] rest IH]; intros b w.
  - cbn. repeat split; lia.
  - cbn [run].
    pose proof (execute_count fn fb b w) as (Hc & Hm & Hn).
    destruct (execute fn fb b w) as [r [b' w']]. cbn in Hc, Hm, Hn.
    specialize (IH b' w'). destruct (run rest b' w') as [rs s].
    cbn in *. destruct IH as (IHc & IHm & IHn).
    rewrite IHc, IHm, IHn, Hc, Hm, Hn. repeat split; lia.
Qed.

Lemma run_keeps_tripped (calls : list call) (b : t) (w : W) :
  isTripped b = true -> isTripped (fst (snd (run calls b w))) = true.
Proof.
  revert b w. induction calls as [| [fn fb] rest IH]; intros b w Hb.
  - exact Hb.
  - cbn [run].
    pose proof (execute_keeps_tripped fn fb b w Hb) as Hk.
    destruct (execute fn fb b w) as [r [b' w']]. cbn in Hk.
    specialize (IH b' w' Hk). destruct (run rest b' w') as [rs s]. exact IH.
Qed.

(** C7.  On a breaker with budget [N] that is fresh or was just reset,
    consider the call number [i] (the calls [earlier] came before it).
    While [i <= N] the call runs [fn] and hands back what [fn] gave
    (result or exception, and [fn]'s effects).  Once [i > N], [fn] is
    not run: the result and effects are the fallback's when there is
    one, and otherwise the call throws the circuit-breaker error
    carrying the breaker's name, [N] and [i], with no effect; the
    breaker is then tripped.  A throwing [fn] trips the breaker as
    well, a tripped breaker stays tripped through any [later] calls,
    and [reset] clears both the flag and the count. *)
Theorem circuit_breaker_budget (b0 : t) (earlier later : list call)
        (fn : cb) (fallback : option cb) (w0 : W) :
  let N := maxOperations b0 in
  let i := Z.of_nat (List.length earlier) + 1 in
  let before := snd (run earlier (reset b0) w0) in
  let out := execute fn fallback (fst before) (snd before) in
  let after := fst (snd out) in
  (i <= N -> (fst out, snd (snd out)) = fn (snd before))
  /\ (N < i ->
      getTripped after = true
      /\ match fallback with
         | Some fb => (fst out, snd (snd out)) = fb (snd before)
         | None => fst out = Throw (CircuitBreakerError (name b0) N i)
                   /\ snd (snd out) = snd before
         end)
  /\ (forall err, i <= N -> fst (fn (snd before)) = Throw err -> getTripped after = true)
  /\ (getTripped after = true ->
      getTripped (fst (snd (run later after (snd (snd out))))) = true)
  /\ getTripped (reset after) = false
  /\ getOperationCount (reset after) = 0.
Proof.
  intros N i before out after.
  pose proof (run_count earlier (reset b0) w0) as (Hc & Hm & Hn).
  fold before in Hc, Hm, Hn. cbn in Hc, Hm, Hn.
  assert (Hcmp : (maxOperations (fst before) <? operationCount (fst before) + 1)
                 = (N <? i)).
  { rewrite Hm, Hc. subst N i. f_equal; lia. }
  subst out after. unfold execute. cbn -[Z.ltb].
  rewrite Hcmp.
  split; [| split; [| split; [| split; [| split]]]].
  - intros Hi. apply Z.ltb_ge in Hi. rewrite Hi.
    destruct (fn (snd before)) as [[v | err] w']; reflexivity.
  - intros Hi. apply Z.ltb_lt in Hi. rewrite Hi.
    destruct fallback as [fb |].
    + destruct (fb (snd before)); split; reflexivity.
    + cbn. rewrite Hn, Hm, Hc. subst N i. repeat split.
  - intros err Hi Hthrow. apply Z.ltb_ge in Hi. rewrite Hi.
    destruct (fn (snd before)) as [[v | err'] w']; cbn in *;
      [discriminate | reflexivity].
  - apply run_keeps_tripped.
  - reflexivity.
  - reflexivity.
Qed.

End CircuitBreakerFacts.

(** ** Marching squares *)

Section MarchingFacts.

Import MarchingSquares.

Variable fn : field.
Variables xMin xMax yMin yMax : JS.number.
Variables ncols nrows : nat.
Variable isoV : JS.number.
Variable limit : nat.

Let g : list (list JS.number) := grid fn xMin xMax yMin yMax ncols nrows.
Let collect' := collect xMin xMax yMin yMax ncols nrows isoV g.
Let march' := march xMin xMax yMin yMax ncols nrows isoV limit g.
Let cell_index' := cell_index isoV g.

Lemma march_length (cs : list (nat * nat)) (segments : list Polyline) :
  (List.length segments < limit)%nat ->
  (List.length (march' cs segments) <= limit)%nat.
Proof.
  unfold march'. revert segments.
  induction cs as [| [i j] cs IH]; intros segments Hlt; cbn [march].
  - lia.
  - destruct (nth (cell_index isoV g i j) edgeTable []) as [| edge edges]; [auto |].
    destruct (Nat.leb 2 (List.length (collect xMin xMax yMin yMax ncols nrows isoV g
                                        i j (edge :: edges) []))); [| auto].
    match goal with |- context [Nat.leb limit ?n] =>
      destruct (Nat.leb limit n) eqn:Hfull end.
    + apply Nat.leb_le in Hfull. rewrite length_app in *. cbn in *. lia.
    + apply Nat.leb_gt in Hfull. apply IH. exact Hfull.
Qed.

(** Where the polylines of the result come from. *)
Lemma march_origin (cs : list (nat * nat)) (segments : list Polyline) (poly : Polyline) :
  In poly (march' cs segments) ->
  In poly segments
  \/ exists i j, In (i, j) cs
                 /\ poly = collect' i j (nth (cell_index' i j) edgeTable []) []
                 /\ (2 <= List.length poly)%nat.
Proof.
  unfold march', collect', cell_index'. revert segments.
  induction cs as [| [i j] cs IH]; intros segments Hin; cbn [march] in Hin.
  - left. exact Hin.
  - match goal with |- ?G => set (Target := G) end.
    assert (Hrest : forall sg,
               In poly (march xMin xMax yMin yMax ncols nrows isoV limit g cs sg) ->
               (In poly sg -> Target) -> Target).
    { intros sg H Hsg. apply IH in H as [H | (i0 & j0 & H & H')]; [exact (Hsg H) |].
      right. exists i0, j0. split; [right; exact H | exact H']. }
    assert (Hhere : forall new,
               new = collect xMin xMax yMin yMax ncols nrows isoV g i j
                       (nth (cell_index isoV g i j) edgeTable []) [] ->
               (2 <= List.length new)%nat ->
               In poly (segments ++ [new]) -> Target).
    { intros new Hnew Hlen H.
      apply in_app_or in H as [H | [H | []]]; [left; exact H |].
      right. exists i, j. subst.
      split; [left; reflexivity | split; [reflexivity | exact Hlen]]. }
    destruct (nth (cell_index isoV g i j) edgeTable []) as [| edge edges] eqn:Hedges.
    + apply (Hrest segments Hin). intros H; left; exact H.
    + destruct (Nat.leb 2 (List.length
                  (collect xMin xMax yMin yMax ncols nrows isoV g i j
                     (edge :: edges) []))) eqn:Hlen.
      * apply Nat.leb_le in Hlen.
        match type of Hin with context [Nat.leb limit ?n] =>
          destruct (Nat.leb limit n) end.
        -- exact (Hhere _ eq_refl Hlen Hin).
        -- apply (Hrest _ Hin). exact (Hhere _ eq_refl Hlen).
      * apply (Hrest segments Hin). intros H; left; exact H.
Qed.




End MarchingFacts.

Lemma or_count_pos (v : option N) (d : N) : d <> 0%N -> JS.or_count v d <> 0%N.
Proof.
  intros Hd. unfold JS.or_count. destruct v as [[| p] |]; auto; discriminate.
Qed.

(** C9.  [marchingSquares] returns at most the effective [maxSegments]
    polylines (the option when it is set and not 0, else 10000), and
    every returned polyline has at least two points. *)
Theorem marchingSquares_bounded (fn : MarchingSquares.field)
        (xMin xMax yMin yMax : JS.number) (options : MarchingSquares.MarchingOptions) :
  let segments := MarchingSquares.marchingSquares fn xMin xMax yMin yMax options in
  (N.of_nat (List.length segments)
   <= JS.or_count (MarchingSquares.maxSegments options) 10000)%N
  /\ Forall (fun poly => (2 <= List.length poly)%nat) segments.
Proof.
  cbv zeta. unfold MarchingSquares.marchingSquares, MarchingSquares.extract.
  set (limit := JS.or_count (MarchingSquares.maxSegments options) 10000).
  assert (Hpos : limit <> 0%N) by (apply or_count_pos; discriminate).
  split.
  - match goal with |- (N.of_nat (List.length ?r) <= _)%N =>
      assert (Hlen : (List.length r <= N.to_nat limit)%nat) end.
    { apply march_length. cbn. lia. }
    lia.
  - apply Forall_forall. intros poly Hin.
    apply march_origin in Hin as [[] | (i & j & _ & _ & Hlen)]. exact Hlen.
Qed.



(** ** Viewport *)

Section ViewportFacts.

Import GraphViewport.

Variable e : PrecisionManager.env.

Lemma frames_ret {A : Type} (a : A) : frames (ret a).
Proof. intros s. split; reflexivity. Qed.

Lemma frames_read {A : Type} (f : t -> res A) : frames (read f).
Proof. intros s. split; reflexivity. Qed.

Lemma frames_pure {A : Type} (r : res A) : frames (pure r).
Proof. intros s. split; reflexivity. Qed.

Lemma frames_modify (f : Viewport -> Viewport) : frames (modify_viewport f).
Proof. intros s. split; reflexivity. Qed.

Lemma frames_bind {A B : Type} (m : M A) (k : A -> M B) :
  frames m -> (forall a, frames (k a)) -> frames (bindM m k).
Proof.
  intros Hm Hk s. unfold bindM. specialize (Hm s).
  destruct (m s) as [[a | err] s']; cbn in *; [| exact Hm].
  destruct (Hk a s') as [H1 H2]. destruct Hm as [H3 H4]. split; congruence.
Qed.

Lemma frames_when (c : M bool) (body : M unit) :
  frames c -> frames body -> frames (when c body).
Proof.
  intros Hc Hb. apply frames_bind; [exact Hc |].
  intros [|]; [exact Hb | apply frames_ret].
Qed.

Lemma frames_orM (a b : M bool) : frames a -> frames b -> frames (orM a b).
Proof.
  intros Ha Hb. apply frames_bind; [exact Ha |].
  intros [|]; [apply frames_ret | exact Hb].
Qed.

Ltac frames_step :=
  lazymatch goal with
  | |- frames (ret _) => apply frames_ret
  | |- frames (read _) => apply frames_read
  | |- frames (pure _) => apply frames_pure
  | |- frames (modify_viewport _) => apply frames_modify
  | |- frames (set_xMin _) => apply frames_modify
  | |- frames (set_xMax _) => apply frames_modify
  | |- frames (set_yMin _) => apply frames_modify
  | |- frames (set_yMax _) => apply frames_modify
  | |- frames (when _ _) => apply frames_when
  | |- frames (orM _ _) => apply frames_orM
  | |- frames (bindM _ _) => apply frames_bind; [| intros ?]
  end.

Lemma frames_recenter_x (range : JS.number) : frames (recenter_x e range).
Proof. unfold recenter_x. repeat frames_step. Qed.

Lemma frames_recenter_y (range : JS.number) : frames (recenter_y e range).
Proof. unfold recenter_y. repeat frames_step. Qed.

Lemma frames_enforceConstraints : frames (enforceConstraints e).
Proof.
  unfold enforceConstraints.
  repeat lazymatch goal with
         | |- frames (recenter_x _ _) => apply frames_recenter_x
         | |- frames (recenter_y _ _) => apply frames_recenter_y
         | |- _ => frames_step
         end.
Qed.

(** A method records when, on normal return, the history is the old
    one with the new viewport pushed, and the constraints are kept. *)
Definition records (m : M unit) : Prop :=
  forall s s', m s = (Ok tt, s') ->
               history s' = push_bounded (viewport s') (history s)
               /\ constraints s' = constraints s.

Lemma records_saveToHistory : records saveToHistory.
Proof.
  intros s s' H. unfold saveToHistory in H. inversion H; subst; clear H.
  cbn. auto.
Qed.

Lemma records_bind {A : Type} (m : M A) (k : A -> M unit) :
  frames m -> (forall a, records (k a)) -> records (bindM m k).
Proof.
  intros Hm Hk s s' H. unfold bindM in H. specialize (Hm s).
  destruct (m s) as [[a | err] s1]; cbn in *; [| discriminate].
  apply Hk in H. destruct Hm as [H1 H2]. destruct H as [H3 H4].
  split; congruence.
Qed.

Ltac records_step :=
  lazymatch goal with
  | |- records saveToHistory => apply records_saveToHistory
  | |- records (bindM _ _) => apply records_bind; [| intros ?]
  | |- frames (enforceConstraints _) => apply frames_enforceConstraints
  | |- frames _ => frames_step
  end.

Lemma pan_records (dx dy : JS.number) : records (pan e dx dy).
Proof. unfold pan. repeat records_step. Qed.

Lemma setViewport_records (newViewport : PartialViewport) :
  records (setViewport e newViewport).
Proof. unfold setViewport. repeat records_step. Qed.

Lemma reset_records : records reset.
Proof. unfold reset. repeat records_step. Qed.

Lemma push_bounded_last (v : Viewport) (h : list Viewport) :
  exists front, push_bounded v h = front ++ [v]
                /\ (h <> [] -> front <> [] /\ last front v = last h v).
Proof.
  unfold push_bounded. destruct (Nat.ltb maxHistorySize (List.length (h ++ [v]))) eqn:Hfull.
  - apply Nat.ltb_lt in Hfull. rewrite length_app in Hfull. cbn in Hfull.
    unfold maxHistorySize in Hfull.
    destruct h as [| a h]; [cbn in Hfull; lia |].
    exists h. split; [reflexivity |]. intros _.
    destruct h as [| b h]; [cbn in Hfull; lia |].
    split; [discriminate | reflexivity].
  - exists h. split; [reflexivity |]. intros Hne. split; [exact Hne | reflexivity].
Qed.

Lemma undo_pops_two (s : t) (h : list Viewport) (previous cur : Viewport) :
  history s = h ++ [previous; cur] ->
  undo s = (Ok true, {| viewport := previous;
                        constraints := constraints s;
                        history := push_bounded previous h |}).
Proof.
  intros Hh. unfold undo. rewrite Hh.
  replace (h ++ [previous; cur]) with ((h ++ [previous]) ++ [cur])
    by (rewrite <- app_assoc; reflexivity).
  rewrite length_app, length_app. cbn [List.length].
  replace (Nat.leb (List.length h + 1 + 1) 1) with false
    by (symmetry; apply Nat.leb_gt; lia).
  rewrite removelast_last, rev_app_distr. cbn [rev app].
  rewrite removelast_last. reflexivity.
Qed.


(** C6.  [undo] takes the two most recent history entries off, makes
    the second one the viewport and records it again.  So for any
    viewport object, if [reset(); pan(1,1); pan(2,2)] run normally, the
    following [undo()] returns [true] and [current] is again what it was
    right after [pan(1,1)].  With at most one history entry, [undo]
    returns [false] and changes nothing. *)
Theorem undo_restores_previous (gv : t) :
  (forall s2 s3,
      pan e 1%float 1%float (snd (reset gv)) = (Ok tt, s2) ->
      pan e 2%float 2%float s2 = (Ok tt, s3) ->
      fst (undo s3) = Ok true /\ current (snd (undo s3)) = current s2)
  /\ (forall h previous cur,
        history gv = h ++ [previous; cur] ->
        undo gv = (Ok true, {| viewport := previous;
                               constraints := constraints gv;
                               history := push_bounded previous h |}))
  /\ ((List.length (history gv) <= 1)%nat -> undo gv = (Ok false, gv)).
Proof.
  split; [| split].
  - intros s2 s3 H2 H3.
    apply pan_records in H2 as [H2 _]. apply pan_records in H3 as [H3 _].
    destruct (push_bounded_last (viewport s2) (history (snd (reset gv))))
      as (front2 & Hf2 & _).
    rewrite Hf2 in H2.
    destruct (push_bounded_last (viewport s3) (history s2)) as (front3 & Hf3 & Hlast).
    rewrite Hf3 in H3.
    destruct Hlast as [Hne Hl]; [rewrite H2; destruct front2; discriminate |].
    rewrite H2, last_last in Hl.
    destruct (exists_last Hne) as (h & previous & ->).
    rewrite last_last in Hl. subst previous.
    rewrite <- app_assoc in H3. cbn [app] in H3.
    rewrite (undo_pops_two s3 h (viewport s2) (viewport s3) H3).
    split; reflexivity.
  - intros h previous cur. apply undo_pops_two.
  - intros Hlen. unfold undo.
    apply Nat.leb_le in Hlen. rewrite Hlen. reflexivity.
Qed.

End ViewportFacts.

(** ** The epsilon comparator on binary64 values *)

Section ComparatorFacts.

Local Open Scope float_scope.

Lemma finite_cases (x : float) :
  is_finite x = true ->
  (exists s, Prim2SF x = S754_zero s) \/ (exists s m e, Prim2SF x = S754_finite s m e).
Proof.
  unfold is_finite, is_nan, is_infinity.
  rewrite !FloatAxioms.eqb_spec, abs_spec.
  destruct (Prim2SF x) as [s | s | | s m e]; cbn; intros H.
  - left. exists s. reflexivity.
  - destruct s; discriminate.
  - discriminate.
  - right. exists s, m, e. reflexivity.
Qed.

Lemma abs_normalize_opp (m e : Z) (s : bool) :
  SFabs (binary_normalize prec emax (- m) e s) = SFabs (binary_normalize prec emax m e s).
Proof.
  destruct m as [| p | p]; cbn [Z.opp binary_normalize]; [reflexivity | |];
    unfold binary_round;
    destruct (shl_align p e (fexp prec emax (Z.pos (digits2_pos p) + e))) as [mz ez];
    unfold binary_round_aux;
    destruct (shr_fexp prec emax (Z.pos mz) ez loc_Exact) as [mrs' e'];
    destruct (shr_fexp prec emax
                (round_nearest_even (shr_m mrs') (loc_of_shr_record mrs')) e' loc_Exact)
      as [mrs'' e''];
    destruct (shr_m mrs''); [reflexivity | | reflexivity | reflexivity | | reflexivity];
    destruct (e'' <=? emax - prec)%Z; reflexivity.
Qed.

(** Subtraction is odd up to the sign of zero. *)
Lemma abs_sub_swap (a b : float) :
  is_finite a = true -> is_finite b = true -> abs (a - b) = abs (b - a).
Proof.
  intros Ha Hb. apply Prim2SF_inj. rewrite !abs_spec, !sub_spec.
  unfold SF64sub, SFsub.
  destruct (finite_cases a Ha) as [[sa ->] | (sa & ma & ea & ->)];
    destruct (finite_cases b Hb) as [[sb ->] | (sb & mb & eb & ->)].
  - destruct sa, sb; reflexivity.
  - cbn. reflexivity.
  - cbn. reflexivity.
  - rewrite (Z.min_comm eb ea).
    rewrite <- abs_normalize_opp. f_equal. f_equal. lia.
Qed.

(** Two finite numbers neither of which is below the other have
    difference zero. *)
Lemma sub_of_equal (a b : float) :
  is_finite a = true -> is_finite b = true ->
  (a <? b) = false -> (b <? a) = false -> abs (a - b) = 0.
Proof.
  intros Ha Hb. rewrite !ltb_spec. intros Hab Hba.
  apply Prim2SF_inj. rewrite abs_spec, sub_spec.
  change (Prim2SF 0) with (S754_zero false).
  unfold SF64sub, SFsub, SFltb, SFcompare in *.
  destruct (finite_cases a Ha) as [[sa Ea] | (sa & ma & ea & Ea)];
    destruct (finite_cases b Hb) as [[sb Eb] | (sb & mb & eb & Eb)];
    rewrite Ea, Eb in *.
  - destruct sa, sb; reflexivity.
  - destruct sb; discriminate.
  - destruct sa; discriminate.
  - assert (Hsame : sa = sb /\ ea = eb /\ ma = mb).
    { assert (Hz : Z.compare eb ea = CompOpp (Z.compare ea eb))
        by apply Z.compare_antisym.
      assert (Hp : Pos.compare_cont Eq mb ma = CompOpp (Pos.compare_cont Eq ma mb))
        by apply (Pos.compare_antisym ma mb).
      rewrite Hz, Hp in Hba.
      change (Pos.compare_cont Eq ma mb) with (Pos.compare ma mb) in *.
      destruct sa, sb; try discriminate;
        destruct (Z.compare_spec ea eb) as [He | He | He]; cbn in *;
        try discriminate;
        destruct (Pos.compare_spec ma mb) as [Hm | Hm | Hm]; cbn in *;
        try discriminate; auto. }
    destruct Hsame as (-> & -> & ->).
    rewrite Z.min_id, Z.sub_diag. reflexivity.
Qed.

Variable e : PrecisionManager.env.

Hypothesis epsilon_positive : (0 <? epsilon (PrecisionManager.config e)) = true.

Lemma compare_values (a b : JS.number) (order : Z) :
  PrecisionManager.compare e a b None = Ok order ->
  JS.isFinite a = true /\ JS.isFinite b = true
  /\ (order = -1 \/ order = 0 \/ order = 1)%Z.
Proof.
  unfold PrecisionManager.compare.
  destruct (JS.isFinite a), (JS.isFinite b); cbn; try discriminate.
  destruct (abs (a - b) <? epsilon (PrecisionManager.config e));
    [| destruct (a <? b)]; intros H; inversion H; auto.
Qed.

(** The comparator is antisymmetric: if [a] does not compare below [b]
    then [b] compares at or below [a]. *)
Lemma compare_antisym (a b : JS.number) (order : Z) :
  PrecisionManager.compare e a b None = Ok order ->
  (0 <= order)%Z ->
  exists order', PrecisionManager.compare e b a None = Ok order' /\ (order' <= 0)%Z.
Proof.
  intros H Hge. pose proof (compare_values a b order H) as (Ha & Hb & _).
  revert H. unfold PrecisionManager.compare, JS.isFinite in *.
  rewrite Ha, Hb. cbn [negb orb].
  rewrite (abs_sub_swap b a Hb Ha).
  destruct (abs (a - b) <? epsilon (PrecisionManager.config e)) eqn:Hclose.
  - intros _. exists 0%Z. split; [reflexivity | lia].
  - destruct (a <? b) eqn:Hab; intros H; inversion H; subst; [lia |].
    destruct (b <? a) eqn:Hba.
    + exists (-1)%Z. split; [reflexivity | lia].
    + rewrite (sub_of_equal a b Ha Hb Hab Hba), epsilon_positive in Hclose.
      discriminate.
Qed.

End ComparatorFacts.

(** ** Sorting *)

Section ArraySortFacts.

Context {A : Type}.
Variable comparefn : A -> A -> res Z.

Hypothesis comparefn_antisym :
  forall a b order,
    comparefn a b = Ok order -> 0 <= order ->
    exists order', comparefn b a = Ok order' /\ order' <= 0.





End ArraySortFacts.

Section ArraySortPermutation.

Context {A : Type}.
Variable comparefn : A -> A -> res Z.

Lemma insert_Permutation (v : A) (l l' : list A) :
  insert comparefn v l = Ok l' -> Permutation (v :: l) l'.
Proof.
  revert l'. induction l as [| h l IH]; intros l' Hins.
  - cbn in Hins. inversion Hins. apply Permutation_refl.
  - cbn [insert] in Hins. apply bind_Ok_inv in Hins as (order & _ & Hins).
    destruct (order <? 0).
    + inversion Hins. apply Permutation_refl.
    + apply bind_Ok_inv in Hins as (rest' & Hins & Hret). inversion Hret; subst.
      eapply Permutation_trans; [apply perm_swap |].
      apply perm_skip. exact (IH rest' Hins).
Qed.

Lemma sort_into_Permutation (pending placed sorted : list A) :
  sort_into comparefn placed pending = Ok sorted ->
  Permutation (placed ++ pending) sorted.
Proof.
  revert placed. induction pending as [| v pending IH]; intros placed Hsort.
  - cbn in Hsort. inversion Hsort. rewrite app_nil_r. apply Permutation_refl.
  - cbn [sort_into] in Hsort. apply bind_Ok_inv in Hsort as (placed' & Hins & Hsort).
    eapply Permutation_trans; [| exact (IH placed' Hsort)].
    eapply Permutation_trans; [apply Permutation_sym, Permutation_middle |].
    apply (Permutation_app_tail pending (insert_Permutation v placed placed' Hins)).
Qed.

Lemma Array_sort_Permutation (l sorted : list A) :
  Array_sort comparefn l = Ok sorted -> Permutation l sorted.
Proof. intros H. exact (sort_into_Permutation l [] sorted H). Qed.

End ArraySortPermutation.

(** ** Adaptive sampler *)

Section SamplerFacts.

Import AdaptiveSampler.

Variable e : PrecisionManager.env.
Variable fn : evaluator.

Definition valid_y (p : Point.t) : Prop := JS.isFinite (Point.y p) = true.

Lemma addPoints_from_grows (todo i count : nat) (a b : JS.number)
      (points points' : list Point.t) :
  addPoints_from e fn todo i count a b points = Ok points' ->
  (List.length points <= List.length points' <= List.length points + todo)%nat
  /\ (Forall valid_y points -> Forall valid_y points').
Proof.
  revert i points. induction todo as [| todo IH]; intros i points H.
  - cbn in H. inversion H; subst. split; [lia | auto].
  - cbn [addPoints_from] in H.
    apply bind_Ok_inv in H as (t & _ & H).
    apply bind_Ok_inv in H as (itv & _ & H).
    apply bind_Ok_inv in H as (scaled & _ & H).
    apply bind_Ok_inv in H as (x & _ & H).
    apply IH in H as [Hlen Hvalid].
    destruct (isValid (safeEvaluate fn x)) eqn:Hy.
    + rewrite length_app in Hlen. cbn in Hlen. split; [lia |].
      intros Hall. apply Hvalid. apply Forall_app. split; [exact Hall |].
      constructor; [exact Hy | constructor].
    + split; [lia | exact Hvalid].
Qed.

Lemma addPoints_grows (a b : JS.number) (points points' : list Point.t) (count : nat) :
  addPoints e fn a b points count = Ok points' ->
  (List.length points <= List.length points' <= List.length points + count)%nat
  /\ (Forall valid_y points -> Forall valid_y points').
Proof. apply addPoints_from_grows. Qed.

Variable localMaxPoints : N.
Variable localTolerance : JS.number.
Variable localMaxDepth : N.
Variable operationTimeout : DeterministicTimeout.t.

Lemma iteration_grows (a b : JS.number) (depth : N) (stack stack' : list interval)
      (points points' : list Point.t) :
  iteration e fn localTolerance localMaxDepth a b depth stack points
  = Ok (stack', points') ->
  (List.length points <= List.length points' <= List.length points + 2)%nat
  /\ (Forall valid_y points -> Forall valid_y points').
Proof.
  unfold iteration. intros H.
  assert (Hadd : forall r : res (list interval * list Point.t),
             r = (let* pts := addPoints e fn a b points 2 in Ok (stack, pts)) ->
             r = Ok (stack', points') ->
             (List.length points <= List.length points' <= List.length points + 2)%nat
             /\ (Forall valid_y points -> Forall valid_y points')).
  { intros r -> Hr. apply bind_Ok_inv in Hr as (pts & Hpts & Hret).
    inversion Hret; subst. exact (addPoints_grows a b points points' 2 Hpts). }
  destruct (localMaxDepth <=? depth)%N; [exact (Hadd _ eq_refl H) |].
  apply bind_Ok_inv in H as (mid & _ & H).
  destruct (negb (isValid (safeEvaluate fn a)) || negb (isValid (safeEvaluate fn b))
            || negb (isValid (safeEvaluate fn mid))); [exact (Hadd _ eq_refl H) |].
  apply bind_Ok_inv in H as (expectedMidY & _ & H).
  apply bind_Ok_inv in H as (diff & _ & H).
  apply bind_Ok_inv in H as (flat & _ & H).
  destruct flat; [exact (Hadd _ eq_refl H) |].
  inversion H; subst. split; [lia | auto].
Qed.

Lemma loop_bounded (fuel : nat) (oc oc' : OperationCounter.state)
      (stack : list interval) (points points' : list Point.t) :
  loop e fn localMaxPoints localTolerance localMaxDepth operationTimeout
       fuel oc stack points = Some (Ok points', oc') ->
  (List.length points' <= Nat.max (List.length points) (N.to_nat localMaxPoints + 1))%nat
  /\ (Forall valid_y points -> Forall valid_y points').
Proof.
  revert oc stack points. induction fuel as [| fuel IH]; intros oc stack points H.
  - discriminate.
  - cbn [loop] in H.
    destruct stack as [| [[a b] depth] stack];
      [inversion H; subst; split; [lia | auto] |].
    destruct (N.of_nat (List.length points) <? localMaxPoints)%N eqn:Hroom;
      [| inversion H; subst; split; [lia | auto]].
    destruct (DeterministicTimeout.hasElapsed operationTimeout
                (OperationCounter.increment oc));
      [inversion H; subst; split; [lia | auto] |].
    destruct (iteration e fn localTolerance localMaxDepth a b depth stack points)
      as [[stack'' points''] | err] eqn:Hit; [| discriminate].
    apply iteration_grows in Hit as [Hlen Hvalid].
    apply IH in H as [Hbound Hvalid'].
    apply N.ltb_lt in Hroom.
    split; [lia | auto].
Qed.

(** The loop never runs out of fuel when it is given more than the
    operations left before the timeout elapses. *)
Lemma loop_returns (fuel : nat) (oc : OperationCounter.state)
      (stack : list interval) (points : list Point.t) :
  0 <= DeterministicTimeout.operationLimit operationTimeout
       - OperationCounter.globalCounter oc < Z.of_nat fuel ->
  loop e fn localMaxPoints localTolerance localMaxDepth operationTimeout
       fuel oc stack points <> None.
Proof.
  revert oc stack points. induction fuel as [| fuel IH]; intros oc stack points Hfuel.
  - lia.
  - cbn [loop].
    destruct stack as [| [[a b] depth] stack]; [discriminate |].
    destruct (N.of_nat (List.length points) <? localMaxPoints)%N; [| discriminate].
    unfold DeterministicTimeout.hasElapsed, OperationCounter.getGlobalCount.
    destruct (DeterministicTimeout.operationLimit operationTimeout
              <=? OperationCounter.globalCounter (OperationCounter.increment oc))
      eqn:Helapsed; [discriminate |].
    destruct (iteration e fn localTolerance localMaxDepth a b depth stack points)
      as [[stack'' points''] | err]; [| discriminate].
    apply IH. apply Z.leb_gt in Helapsed. cbn in *. lia.
Qed.

End SamplerFacts.



(** ** The claims on concrete inputs *)

(** C1 (failing input).  [sample(x => x, [0, 1], { maxPoints: 1 })]
    returns two points although the effective [maxPoints] is 1: the
    loop guard is passed with no point held and the interval then
    contributes both of its ends. *)
Lemma sample_exceeds_maxPoints :
  AdaptiveSampler.sample Inputs.sampler PrecisionManager.initial Inputs.identity
    (0%float, 1%float) Inputs.one_point OperationCounter.initial
  = Some (Ok [Point.mk 0%float 0%float; Point.mk 1%float 1%float],
          OperationCounter.increment
            (OperationCounter.createCounter "adaptive-sampler" OperationCounter.initial))
  /\ JS.or_count (AdaptiveSampler.maxPoints Inputs.one_point)
                 (AdaptiveSampler.this_maxPoints Inputs.sampler) = 1%N.
Proof. by_evaluation. Qed.

(** C2 (failing input).  [sample(x => 1, [-1e308, 1e308])]: both ends
    are finite and the evaluator is total, yet the call throws the
    DeterminismError of [subtract], whose result [2e308] overflows when
    [addPoints] computes the interval length. *)
Lemma sample_throws_on_overflow :
  JS.isFinite (-1e308)%float = true /\ JS.isFinite 1e308%float = true
  /\ AdaptiveSampler.sample Inputs.sampler PrecisionManager.initial Inputs.constant_one
       ((-1e308)%float, 1e308%float) AdaptiveSampler.no_options OperationCounter.initial
     = Some (Throw (DeterminismError "subtract"),
             OperationCounter.increment
               (OperationCounter.createCounter "adaptive-sampler"
                  OperationCounter.initial)).
Proof. by_evaluation. Qed.


(** C4 (failing input).  [new GraphViewport({ xMin: 5, xMax: 1 })]
    holds [xMin = 5 > xMax = 1]: the constructor records the merged
    viewport without enforcing the constraints, where [setViewport] with
    the same fields swaps the bounds. *)
Lemma constructor_keeps_inverted_bounds :
  let built := GraphViewport.constructor Inputs.inverted empty_constraints in
  let set := snd (GraphViewport.setViewport PrecisionManager.initial Inputs.inverted
                    Inputs.fresh_viewport) in
  xMin (GraphViewport.current built) = 5%float
  /\ xMax (GraphViewport.current built) = 1%float
  /\ PrimFloat.ltb (xMin (GraphViewport.current built))
                   (xMax (GraphViewport.current built)) = false
  /\ xMin (GraphViewport.current set) = 1%float
  /\ xMax (GraphViewport.current set) = 5%float.
Proof. by_evaluation. Qed.


(** C6 (instance).  [reset(); pan(1,1); pan(2,2); undo()] on a new
    viewport: [current] is [-9, 11] x [-9, 11], the state after
    [pan(1,1)]. *)
Lemma undo_witness :
  let s1 := snd (GraphViewport.reset Inputs.fresh_viewport) in
  let s2 := snd (GraphViewport.pan PrecisionManager.initial 1%float 1%float s1) in
  let s3 := snd (GraphViewport.pan PrecisionManager.initial 2%float 2%float s2) in
  fst (GraphViewport.undo s3) = Ok true
  /\ GraphViewport.current (snd (GraphViewport.undo s3)) = GraphViewport.current s2
  /\ GraphViewport.current s2
     = {| xMin := (-9)%float; xMax := 11%float; yMin := (-9)%float; yMax := 11%float;
          pixelRatio := 1%float |}.
Proof.
  intros s1 s2 s3.
  destruct (proj1 (undo_restores_previous PrecisionManager.initial Inputs.fresh_viewport)
              s2 s3) as [Hret Hcur].
  - vm_compute. reflexivity.
  - vm_compute. reflexivity.
  - split; [exact Hret | split; [exact Hcur | vm_compute; reflexivity]].
Defined.




